(** * The upcall index table of the native bridge

    A model of [com.oracle.truffle.r.native/fficall/src/common/rffi_upcallsindex.h],
    the header that [FFIProcessor] generates: one object-like macro per upcall,
    giving its slot in the upcall table, and [UPCALLS_TABLE_SIZE].

    The header is kept line by line, in file order, so that a definition can be
    addressed by its line number and so that the repeated [#define]s of a name
    stay visible.  The C preprocessor is modelled as a fold over the lines into
    a macro environment. *)

From Stdlib Require Import ZArith Lia.
From stdpp Require Import strings list gmap.

Local Open Scope string_scope.
Local Open Scope list_scope.
Local Open Scope Z_scope.

(** ** Lines of the header *)

(** The header uses five kinds of line: a comment, [#ifndef], an object-like
    [#define] (with an integer body, or with an empty one for the include
    guard), a blank line and [#endif]. *)
Inductive line : Type :=
  | Comment (text : string)
  | Ifndef (name : string)
  | DefineEmpty (name : string)
  | Define (name : string) (value : Z)
  | Blank
  | Endif.

#[global] Instance line_eq_dec : EqDecision line.
Proof. solve_decision. Defined.

(** The file, line 1 first.  Line [n] of the file is [header !! (n - 1)]. *)
Definition header : list line :=
  [
    Comment "GENERATED by com.oracle.truffle.r.ffi.processor.FFIProcessor class; DO NOT EDIT";
    Ifndef "RFFI_UPCALLSINDEX_H";
    DefineEmpty "RFFI_UPCALLSINDEX_H";
    Blank;
    Define "ATTRIB_x" 0;
    Define "BODY_x" 1;
    Define "CAAR_x" 2;
    Define "CAD4R_x" 3;
    Define "CADDDR_x" 4;
    Define "CADDR_x" 5;
    Define "CADR_x" 6;
    Define "CAR_x" 7;
    Define "CDAR_x" 8;
    Define "CDDDR_x" 9;
    Define "CDDR_x" 10;
    Define "CDR_x" 11;
    Define "CLOENV_x" 12;
    Define "COMPLEX_x" 13;
    Define "DUPLICATE_ATTRIB_x" 14;
    Define "ENCLOS_x" 15;
    Define "FASTR_getConnectionChar_x" 16;
    Define "FORMALS_x" 17;
    Define "GetRNGstate_x" 18;
    Define "INTEGER_x" 19;
    Define "IS_S4_OBJECT_x" 20;
    Define "LENGTH_x" 21;
    Define "LOGICAL_x" 22;
    Define "NAMED_x" 23;
    Define "OBJECT_x" 24;
    Define "PRCODE_x" 25;
    Define "PRENV_x" 26;
    Define "PRINTNAME_x" 27;
    Define "PRSEEN_x" 28;
    Define "PRVALUE_x" 29;
    Define "PutRNGstate_x" 30;
    Define "RAW_x" 31;
    Define "RDEBUG_x" 32;
    Define "REAL_x" 33;
    Define "RSTEP_x" 34;
    Define "R_BaseEnv_x" 35;
    Define "R_BaseNamespace_x" 36;
    Define "R_BindingIsLocked_x" 37;
    Define "R_CHAR_x" 38;
    Define "R_CleanUp_x" 39;
    Define "R_ExternalPtrAddr_x" 40;
    Define "R_ExternalPtrProtected_x" 41;
    Define "R_ExternalPtrTag_x" 42;
    Define "R_FindNamespace_x" 43;
    Define "R_GetConnection_x" 44;
    Define "R_GlobalContext_x" 45;
    Define "R_GlobalEnv_x" 46;
    Define "R_Home_x" 47;
    Define "R_HomeDir_x" 48;
    Define "R_Interactive_x" 49;
    Define "R_LockBinding_x" 50;
    Define "R_MakeExternalPtr_x" 51;
    Define "R_MethodsNamespace_x" 52;
    Define "R_NamespaceRegistry_x" 53;
    Define "R_NewHashedEnv_x" 54;
    Define "R_ParseVector_x" 55;
    Define "R_PreserveObject_x" 56;
    Define "R_PromiseExpr_x" 57;
    Define "R_ProtectWithIndex_x" 58;
    Define "R_ReadConnection_x" 59;
    Define "R_ReleaseObject_x" 60;
    Define "R_Reprotect_x" 61;
    Define "R_SetExternalPtrAddr_x" 62;
    Define "R_SetExternalPtrProtected_x" 63;
    Define "R_SetExternalPtrTag_x" 64;
    Define "R_TempDir_x" 65;
    Define "R_ToplevelExec_x" 66;
    Define "R_WriteConnection_x" 67;
    Define "R_alloc_x" 68;
    Define "R_compute_identical_x" 69;
    Define "R_do_MAKE_CLASS_x" 70;
    Define "R_do_new_object_x" 71;
    Define "R_do_slot_x" 72;
    Define "R_do_slot_assign_x" 73;
    Define "R_getClassDef_x" 74;
    Define "R_getContextCall_x" 75;
    Define "R_getContextEnv_x" 76;
    Define "R_getContextFun_x" 77;
    Define "R_getContextSrcRef_x" 78;
    Define "R_getGlobalFunctionContext_x" 79;
    Define "R_getParentFunctionContext_x" 80;
    Define "R_has_slot_x" 81;
    Define "R_insideBrowser_x" 82;
    Define "R_isEqual_x" 83;
    Define "R_isGlobal_x" 84;
    Define "R_lsInternal3_x" 85;
    Define "R_new_custom_connection_x" 86;
    Define "R_tryEval_x" 87;
    Define "R_unLockBinding_x" 88;
    Define "Rf_GetOption1_x" 89;
    Define "Rf_NonNullStringMatch_x" 90;
    Define "Rf_PairToVectorList_x" 91;
    Define "Rf_PrintValue_x" 92;
    Define "Rf_ScalarDouble_x" 93;
    Define "Rf_ScalarInteger_x" 94;
    Define "Rf_ScalarLogical_x" 95;
    Define "Rf_ScalarString_x" 96;
    Define "Rf_VectorToPairList_x" 97;
    Define "Rf_allocArray_x" 98;
    Define "Rf_allocMatrix_x" 99;
    Define "Rf_allocVector_x" 100;
    Define "Rf_any_duplicated_x" 101;
    Define "Rf_any_duplicated3_x" 102;
    Define "Rf_asChar_x" 103;
    Define "Rf_asCharacterFactor_x" 104;
    Define "Rf_asInteger_x" 105;
    Define "Rf_asLogical_x" 106;
    Define "Rf_asReal_x" 107;
    Define "Rf_classgets_x" 108;
    Define "Rf_coerceVector_x" 109;
    Define "Rf_cons_x" 110;
    Define "Rf_copyListMatrix_x" 111;
    Define "Rf_copyMatrix_x" 112;
    Define "Rf_copyMostAttrib_x" 113;
    Define "Rf_dchisq_x" 114;
    Define "Rf_defineVar_x" 115;
    Define "Rf_dnchisq_x" 116;
    Define "Rf_dunif_x" 117;
    Define "Rf_duplicate_x" 118;
    Define "Rf_error_x" 119;
    Define "Rf_errorcall_x" 120;
    Define "Rf_eval_x" 121;
    Define "Rf_findFun_x" 122;
    Define "Rf_findVar_x" 123;
    Define "Rf_findVarInFrame_x" 124;
    Define "Rf_findVarInFrame3_x" 125;
    Define "Rf_getAttrib_x" 126;
    Define "Rf_gsetVar_x" 127;
    Define "Rf_inherits_x" 128;
    Define "Rf_install_x" 129;
    Define "Rf_installChar_x" 130;
    Define "Rf_isNull_x" 131;
    Define "Rf_isString_x" 132;
    Define "Rf_lengthgets_x" 133;
    Define "Rf_match_x" 134;
    Define "Rf_mkCharLenCE_x" 135;
    Define "Rf_namesgets_x" 136;
    Define "Rf_ncols_x" 137;
    Define "Rf_nrows_x" 138;
    Define "Rf_pchisq_x" 139;
    Define "Rf_pnchisq_x" 140;
    Define "Rf_protect_x" 141;
    Define "Rf_punif_x" 142;
    Define "Rf_qchisq_x" 143;
    Define "Rf_qnchisq_x" 144;
    Define "Rf_qunif_x" 145;
    Define "Rf_rchisq_x" 146;
    Define "Rf_rnchisq_x" 147;
    Define "Rf_runif_x" 148;
    Define "Rf_setAttrib_x" 149;
    Define "Rf_str2type_x" 150;
    Define "Rf_unprotect_x" 151;
    Define "Rf_unprotect_ptr_x" 152;
    Define "Rf_warning_x" 153;
    Define "Rf_warningcall_x" 154;
    Define "Rprintf_x" 155;
    Define "SETCAD4R_x" 156;
    Define "SETCADDDR_x" 157;
    Define "SETCADDR_x" 158;
    Define "SETCADR_x" 159;
    Define "SETCAR_x" 160;
    Define "SETCDR_x" 161;
    Define "SET_BODY_x" 162;
    Define "SET_CLOENV_x" 163;
    Define "SET_FORMALS_x" 164;
    Define "SET_NAMED_FASTR_x" 165;
    Define "SET_RDEBUG_x" 166;
    Define "SET_RSTEP_x" 167;
    Define "SET_S4_OBJECT_x" 168;
    Define "SET_STRING_ELT_x" 169;
    Define "SET_SYMVALUE_x" 170;
    Define "SET_TAG_x" 171;
    Define "SET_TYPEOF_FASTR_x" 172;
    Define "SET_VECTOR_ELT_x" 173;
    Define "STRING_ELT_x" 174;
    Define "SYMVALUE_x" 175;
    Define "TAG_x" 176;
    Define "TYPEOF_x" 177;
    Define "UNSET_S4_OBJECT_x" 178;
    Define "VECTOR_ELT_x" 179;
    Define "forceSymbols_x" 180;
    Define "getCCallable_x" 181;
    Define "getConnectionClassString_x" 182;
    Define "getEmbeddingDLLInfo_x" 183;
    Define "getOpenModeString_x" 184;
    Define "getSummaryDescription_x" 185;
    Define "isSeekable_x" 186;
    Define "octsize_x" 187;
    Define "registerCCallable_x" 188;
    Define "registerRoutines_x" 189;
    Define "restoreHandlerStacks_x" 190;
    Define "setDotSymbolValues_x" 191;
    Define "unif_rand_x" 192;
    Define "useDynamicSymbols_x" 193;
    Define "Rf_any_duplicated3_x" 102;
    Define "Rf_asChar_x" 103;
    Define "Rf_asCharacterFactor_x" 104;
    Define "Rf_asInteger_x" 105;
    Define "Rf_asLogical_x" 106;
    Define "Rf_asReal_x" 107;
    Define "Rf_classgets_x" 108;
    Define "Rf_coerceVector_x" 109;
    Define "Rf_cons_x" 110;
    Define "Rf_copyListMatrix_x" 111;
    Define "isSeekable_x" 186;
    Define "octsize_x" 187;
    Define "registerCCallable_x" 188;
    Define "registerRoutines_x" 189;
    Define "restoreHandlerStacks_x" 190;
    Define "setDotSymbolValues_x" 191;
    Define "unif_rand_x" 192;
    Define "useDynamicSymbols_x" 193;
    Define "Rf_asChar_x" 102;
    Define "Rf_asCharacterFactor_x" 103;
    Define "Rf_asInteger_x" 104;
    Define "Rf_asLogical_x" 105;
    Define "Rf_asReal_x" 106;
    Define "Rf_classgets_x" 107;
    Define "Rf_coerceVector_x" 108;
    Define "Rf_cons_x" 109;
    Define "Rf_copyListMatrix_x" 110;
    Define "Rf_copyMatrix_x" 111;
    Define "Rf_copyMostAttrib_x" 112;
    Define "Rf_dbeta_x" 113;
    Define "Rf_dbinom_x" 114;
    Define "Rf_dcauchy_x" 115;
    Define "Rf_dchisq_x" 116;
    Define "Rf_defineVar_x" 117;
    Define "Rf_dexp_x" 118;
    Define "Rf_df_x" 119;
    Define "Rf_dgamma_x" 120;
    Define "Rf_dgeom_x" 121;
    Define "Rf_dhyper_x" 122;
    Define "Rf_dlnorm_x" 123;
    Define "Rf_dlogis_x" 124;
    Define "Rf_dnbeta_x" 125;
    Define "Rf_dnbinom_x" 126;
    Define "Rf_dnbinom_mu_x" 127;
    Define "Rf_dnchisq_x" 128;
    Define "Rf_dnf_x" 129;
    Define "Rf_dnorm_x" 130;
    Define "Rf_dnt_x" 131;
    Define "Rf_dpois_x" 132;
    Define "Rf_dsignrank_x" 133;
    Define "Rf_dt_x" 134;
    Define "Rf_dunif_x" 135;
    Define "Rf_duplicate_x" 136;
    Define "Rf_dweibull_x" 137;
    Define "Rf_dwilcox_x" 138;
    Define "Rf_error_x" 139;
    Define "Rf_errorcall_x" 140;
    Define "Rf_eval_x" 141;
    Define "Rf_findFun_x" 142;
    Define "Rf_findVar_x" 143;
    Define "Rf_findVarInFrame_x" 144;
    Define "Rf_findVarInFrame3_x" 145;
    Define "Rf_ftrunc_x" 146;
    Define "Rf_getAttrib_x" 147;
    Define "Rf_gsetVar_x" 148;
    Define "Rf_inherits_x" 149;
    Define "Rf_install_x" 150;
    Define "Rf_installChar_x" 151;
    Define "Rf_isNull_x" 152;
    Define "Rf_isString_x" 153;
    Define "Rf_lengthgets_x" 154;
    Define "Rf_match_x" 155;
    Define "Rf_mkCharLenCE_x" 156;
    Define "Rf_namesgets_x" 157;
    Define "Rf_ncols_x" 158;
    Define "Rf_nrows_x" 159;
    Define "Rf_pbeta_x" 160;
    Define "Rf_pbinom_x" 161;
    Define "Rf_pcauchy_x" 162;
    Define "Rf_pchisq_x" 163;
    Define "Rf_pexp_x" 164;
    Define "Rf_pf_x" 165;
    Define "Rf_pgamma_x" 166;
    Define "Rf_pgeom_x" 167;
    Define "Rf_phyper_x" 168;
    Define "Rf_plnorm_x" 169;
    Define "Rf_plogis_x" 170;
    Define "Rf_pnbeta_x" 171;
    Define "Rf_pnbinom_x" 172;
    Define "Rf_pnbinom_mu_x" 173;
    Define "Rf_pnchisq_x" 174;
    Define "Rf_pnf_x" 175;
    Define "Rf_pnorm_x" 176;
    Define "Rf_pnt_x" 177;
    Define "Rf_ppois_x" 178;
    Define "Rf_protect_x" 179;
    Define "Rf_psignrank_x" 180;
    Define "Rf_pt_x" 181;
    Define "Rf_ptukey_x" 182;
    Define "Rf_punif_x" 183;
    Define "Rf_pweibull_x" 184;
    Define "Rf_pwilcox_x" 185;
    Define "Rf_qbeta_x" 186;
    Define "Rf_qbinom_x" 187;
    Define "Rf_qcauchy_x" 188;
    Define "Rf_qchisq_x" 189;
    Define "Rf_qexp_x" 190;
    Define "Rf_qf_x" 191;
    Define "Rf_qgamma_x" 192;
    Define "Rf_qgeom_x" 193;
    Define "Rf_qhyper_x" 194;
    Define "Rf_qlnorm_x" 195;
    Define "Rf_qlogis_x" 196;
    Define "Rf_qnbeta_x" 197;
    Define "Rf_qnbinom_x" 198;
    Define "Rf_qnbinom_mu_x" 199;
    Define "Rf_qnchisq_x" 200;
    Define "Rf_qnf_x" 201;
    Define "Rf_qnorm_x" 202;
    Define "Rf_qnt_x" 203;
    Define "Rf_qpois_x" 204;
    Define "Rf_qsignrank_x" 205;
    Define "Rf_qt_x" 206;
    Define "Rf_qtukey_x" 207;
    Define "Rf_qunif_x" 208;
    Define "Rf_qweibull_x" 209;
    Define "Rf_qwilcox_x" 210;
    Define "Rf_rbeta_x" 211;
    Define "Rf_rbinom_x" 212;
    Define "Rf_rcauchy_x" 213;
    Define "Rf_rchisq_x" 214;
    Define "Rf_rexp_x" 215;
    Define "Rf_rf_x" 216;
    Define "Rf_rgamma_x" 217;
    Define "Rf_rgeom_x" 218;
    Define "Rf_rhyper_x" 219;
    Define "Rf_rlnorm_x" 220;
    Define "Rf_rlogis_x" 221;
    Define "Rf_rmultinom_x" 222;
    Define "Rf_rnbinom_x" 223;
    Define "Rf_rnbinom_mu_x" 224;
    Define "Rf_rnchisq_x" 225;
    Define "Rf_rnorm_x" 226;
    Define "Rf_rpois_x" 227;
    Define "Rf_rsignrank_x" 228;
    Define "Rf_rt_x" 229;
    Define "Rf_runif_x" 230;
    Define "Rf_rweibull_x" 231;
    Define "Rf_rwilcox_x" 232;
    Define "Rf_setAttrib_x" 233;
    Define "Rf_str2type_x" 234;
    Define "Rf_unprotect_x" 235;
    Define "Rf_unprotect_ptr_x" 236;
    Define "Rf_warning_x" 237;
    Define "Rf_warningcall_x" 238;
    Define "Rprintf_x" 239;
    Define "SETCAD4R_x" 240;
    Define "SETCADDDR_x" 241;
    Define "SETCADDR_x" 242;
    Define "SETCADR_x" 243;
    Define "SETCAR_x" 244;
    Define "SETCDR_x" 245;
    Define "SET_BODY_x" 246;
    Define "SET_CLOENV_x" 247;
    Define "SET_FORMALS_x" 248;
    Define "SET_NAMED_FASTR_x" 249;
    Define "SET_RDEBUG_x" 250;
    Define "SET_RSTEP_x" 251;
    Define "SET_S4_OBJECT_x" 252;
    Define "SET_STRING_ELT_x" 253;
    Define "SET_SYMVALUE_x" 254;
    Define "SET_TAG_x" 255;
    Define "SET_TYPEOF_FASTR_x" 256;
    Define "SET_VECTOR_ELT_x" 257;
    Define "STRING_ELT_x" 258;
    Define "SYMVALUE_x" 259;
    Define "TAG_x" 260;
    Define "TYPEOF_x" 261;
    Define "UNSET_S4_OBJECT_x" 262;
    Define "VECTOR_ELT_x" 263;
    Define "forceSymbols_x" 264;
    Define "getCCallable_x" 265;
    Define "getConnectionClassString_x" 266;
    Define "getEmbeddingDLLInfo_x" 267;
    Define "getOpenModeString_x" 268;
    Define "getSummaryDescription_x" 269;
    Define "isSeekable_x" 270;
    Define "octsize_x" 271;
    Define "registerCCallable_x" 272;
    Define "registerRoutines_x" 273;
    Define "restoreHandlerStacks_x" 274;
    Define "setDotSymbolValues_x" 275;
    Define "unif_rand_x" 276;
    Define "useDynamicSymbols_x" 277;
    Blank;
    Define "UPCALLS_TABLE_SIZE" 278;
    Blank;
    Endif
  ].

(** [line_at n] is line [n] of the file, counted from 1 as an editor does. *)
Definition line_at (n : nat) : option line :=
  match n with
  | O => None
  | S i => header !! i
  end.

(** [lines a b] are the lines [a] to [b] of the file, both included. *)
Definition lines (a b : nat) : list line :=
  take (S b - a) (drop (a - 1) header).

(** ** The preprocessor *)

(** A macro defined with an empty body carries [None]. *)
Record cpp_state : Type := CppState {
  macros : gmap string (option Z);
  (** depth of the conditional groups being skipped; [O] when lines are live *)
  skipped : nat
}.

Definition cpp_init : cpp_state := CppState ∅ 0.

(** One line.  A [#define] of a name that is already defined replaces the
    earlier body: the last definition wins.  [#ifndef] opens a group that is
    skipped when the name is defined; inside a skipped group only the nesting
    of conditionals is followed. *)
Definition cpp_line (st : cpp_state) (l : line) : cpp_state :=
  match skipped st with
  | O =>
      match l with
      | Comment _ | Blank | Endif => st
      | Ifndef g =>
          match macros st !! g with
          | Some _ => CppState (macros st) 1
          | None => st
          end
      | DefineEmpty n => CppState (<[n := None]> (macros st)) 0
      | Define n v => CppState (<[n := Some v]> (macros st)) 0
      end
  | S d =>
      match l with
      | Ifndef _ => CppState (macros st) (S (S d))
      | Endif => CppState (macros st) d
      | _ => st
      end
  end.

Definition preprocess (st : cpp_state) (ls : list line) : cpp_state :=
  foldl cpp_line st ls.

(** The value a name expands to, when it expands to an integer. *)
Definition expand (st : cpp_state) (name : string) : option Z :=
  macros st !! name ≫= id.

(** The environment a translation unit has after including the header. *)
Definition included : cpp_state := preprocess cpp_init header.

Definition UPCALLS_TABLE_SIZE : Z :=
  default 0 (expand included "UPCALLS_TABLE_SIZE").

(** ** The table as a list of definitions *)

(** The integer-valued definitions of some lines, in file order. *)
Definition defines (ls : list line) : list (string * Z) :=
  omap (λ l, match l with Define n v => Some (n, v) | _ => None end) ls.

(** The generator names the slot constant of upcall [f] as [f_x]. *)
Definition is_upcall (name : string) : bool :=
  String.eqb (String.substring (String.length name - 2) 2 name) "_x".

(** The upcall name without the [_x] suffix. *)
Definition base_name (name : string) : string :=
  String.substring 0 (String.length name - 2) name.

Definition upcall_defs : list (string * Z) :=
  filter (λ d, is_upcall d.1 = true) (defines header).

Definition names (ds : list (string * Z)) : list string := ds.*1.
Definition slots (ds : list (string * Z)) : list Z := ds.*2.

(** The value of the last definition of [name] among [ds], if there is one. *)
Definition last_def (name : string) (ds : list (string * Z)) : option Z :=
  foldl (λ acc d, if decide (d.1 = name) then Some d.2 else acc) None ds.

(** The distinct upcall names of the table. *)
Definition upcall_names : gset string := list_to_set (names upcall_defs).

(** The largest slot among some definitions ([-1] when there is none). *)
Definition max_slot (ds : list (string * Z)) : Z :=
  foldr Z.max (-1) (slots ds).

(** ** Generation passes *)

(** The generator numbers the names of one pass 0, 1, 2, ...; the file holds
    several such runs one after the other.  [runs] cuts a list of definitions
    where a slot is not the successor of the one before it. *)
Fixpoint runs_from (prev : Z) (cur : list (string * Z)) (ds : list (string * Z))
  : list (list (string * Z)) :=
  match ds with
  | [] => [reverse cur]
  | d :: ds' =>
      if decide (d.2 = prev + 1)
      then runs_from d.2 (d :: cur) ds'
      else reverse cur :: runs_from d.2 [d] ds'
  end.

Definition runs (ds : list (string * Z)) : list (list (string * Z)) :=
  match ds with
  | [] => []
  | d :: ds' => runs_from d.2 [d] ds'
  end.

(** The first pass, the definitions repeated after it, and the last pass. *)
Definition first_pass : list (string * Z) := defines (lines 5 198).
Definition repeated_head : list (string * Z) := defines (lines 199 208).
Definition repeated_tail : list (string * Z) := defines (lines 209 216).
Definition last_pass : list (string * Z) := defines (lines 217 392).

(** The slots of the names that the first and the last pass share, as pairs
    (slot in the first pass, slot in the last pass), in the order of the
    first pass. *)
Definition renumbering : list (Z * Z) :=
  omap (λ d, (λ s', (d.2, s')) <$> last_def d.1 last_pass) first_pass.

(** The definitions that are in force at the end of [ds]: of each name the
    last definition, in file order. *)
Fixpoint winners (ds : list (string * Z)) : list (string * Z) :=
  match ds with
  | [] => []
  | d :: ds' =>
      if decide (d.1 ∈ names ds') then winners ds' else d :: winners ds'
  end.

(** Strictly increasing order of the character codes, between all pairs. *)
Definition ascii_lt (a b : string) : Prop := String.ltb a b = true.

#[global] Instance ascii_lt_dec a b : Decision (ascii_lt a b).
Proof. unfold ascii_lt. apply _. Defined.

Definition strictly_increasing (l : list string) : Prop :=
  ∀ i j a b, l !! i = Some a → l !! j = Some b → (i < j)%nat → ascii_lt a b.

(** The same, as a check on neighbours and then on every later element. *)
Fixpoint increasing_check (l : list string) : bool :=
  match l with
  | [] => true
  | a :: l' => forallb (String.ltb a) l' && increasing_check l'
  end.

(** Lines that neither open nor close a conditional group and define no
    macro with an empty body. *)
Definition plain (l : line) : Prop :=
  match l with
  | Comment _ | Define _ _ | Blank => True
  | Ifndef _ | DefineEmpty _ | Endif => False
  end.

#[global] Instance plain_dec l : Decision (plain l).
Proof. destruct l; simpl; apply _. Defined.

(** * The dispatch gateway over the table

    The header holds only the slot numbers.  The gateway that native code
    calls with a slot is modelled here as the specification words it. *)

(** Modelled from the spec: the failure taxonomy of section 7; the header
    defines no error codes. *)
Inductive failure : Type :=
  | ConfigurationError
  | ABIViolation
  | MarshalingError
  | ManagedFailure.

#[global] Instance failure_eq_dec : EqDecision failure.
Proof. solve_decision. Defined.

Module DispatchGateway.

(** Modelled from the spec: the kinds of argument the marshaler supports
    (section 8) and the signature descriptor of an entry (section 3). *)
Inductive kind : Type := KInteger | KFloat | KString | KReference.

Record signature : Type := Signature {
  arg_kinds : list kind;
  ret_kind : kind
}.

(** Modelled from the spec: what the gateway does besides computing its
    result, in the order it does it. *)
Inductive event : Type :=
  | SkewLogged (slot : Z)
  | ArgumentsDecoded (slot : Z)
  | GuardAcquired
  | Invoked (slot : Z)
  | GuardReleased.

Section Gateway.

(** The foreign representation of a value, the managed one, and the
    caller context stay abstract, with the marshaler's two directions. *)
Context {wire managed context : Type}.
Variable decode : kind → wire → option managed.
Variable encode : kind → managed → wire.

(** Modelled from the spec: an implementation entry, a callable of the
    managed runtime ([None] when it fails) with its signature. *)
Record entry : Type := Entry {
  callable : list managed → option managed;
  sig : signature
}.

Inductive call_result : Type :=
  | Success (w : wire)
  | Failure (f : failure).

(** Modelled from the spec: the implementation table, one cell per slot
    ([None] for a slot nothing was installed into), and the journal of
    what the gateway did. *)
Record gateway : Type := Gateway {
  table : list (option entry);
  journal : list event
}.

Definition size (g : gateway) : Z := Z.of_nat (length (table g)).

Definition record_events (es : list event) (g : gateway) : gateway :=
  Gateway (table g) (journal g ++ es).

(** Modelled from the spec: the marshaler decodes the argument buffer
    according to the signature; a wrong argument count or an argument
    that does not decode is a marshaling error. *)
Definition decode_args (sg : signature) (args : list wire)
  : option (list managed) :=
  if decide (length args = length (arg_kinds sg))
  then mapM (λ kw, decode kw.1 kw.2) (zip (arg_kinds sg) args)
  else None.

(** Modelled from the spec: [invoke(slot, argBuffer, ctx) -> CallResult]
    (section 4.3).  The slot is checked against the table bounds first;
    an out-of-bounds slot is logged and reported as [ABIViolation].  In
    bounds, the arguments are decoded, the implementation runs under the
    execution guard, a failure inside it is captured, and the guard is
    released on both ways out. *)
Definition invoke (slot : Z) (argBuffer : list wire) (ctx : context)
    (g : gateway) : call_result * gateway :=
  if decide (0 ≤ slot < size g) then
    match table g !! Z.to_nat slot with
    | Some (Some e) =>
        match decode_args (sig e) argBuffer with
        | None => (Failure MarshalingError, g)
        | Some vs =>
            let done := [ArgumentsDecoded slot; GuardAcquired;
                         Invoked slot; GuardReleased] in
            match callable e vs with
            | Some v =>
                (Success (encode (ret_kind (sig e)) v),
                 record_events done g)
            | None => (Failure ManagedFailure, record_events done g)
            end
        end
    | _ => (Failure ConfigurationError, g)
    end
  else (Failure ABIViolation, record_events [SkewLogged slot] g).

(** Calls one after the other, each on the gateway the one before it
    left. *)
Fixpoint invoke_all (reqs : list (Z * list wire * context)) (g : gateway)
  : list call_result * gateway :=
  match reqs with
  | [] => ([], g)
  | r :: reqs' =>
      let (res, g1) := invoke r.1.1 r.1.2 r.2 g in
      let (ress, g2) := invoke_all reqs' g1 in
      (res :: ress, g2)
  end.

End Gateway.

End DispatchGateway.

(** * Facts read off the file *)

Lemma header_length : length header = 396%nat.
Proof. reflexivity. Qed.

Lemma table_size_value : UPCALLS_TABLE_SIZE = 278.
Proof. vm_compute. reflexivity. Qed.

Lemma table_size_line : line_at 394 = Some (Define "UPCALLS_TABLE_SIZE" 278).
Proof. reflexivity. Qed.

(** Every integer-valued macro of the header is an upcall slot, except the
    size constant, which comes last. *)
Lemma defines_header :
  defines header = upcall_defs ++ [("UPCALLS_TABLE_SIZE", 278)].
Proof. vm_compute. reflexivity. Qed.

Lemma upcall_defs_passes :
  upcall_defs = first_pass ++ repeated_head ++ repeated_tail ++ last_pass.
Proof. vm_compute. reflexivity. Qed.

(** The four pieces are exactly the maximal runs of consecutive slots. *)
Lemma runs_upcall_defs :
  runs upcall_defs = [first_pass; repeated_head; repeated_tail; last_pass].
Proof. vm_compute. reflexivity. Qed.

Lemma first_pass_slots : slots first_pass = seqZ 0 194.
Proof. vm_compute. reflexivity. Qed.

Lemma repeated_head_slots : slots repeated_head = seqZ 102 10.
Proof. vm_compute. reflexivity. Qed.

Lemma repeated_tail_slots : slots repeated_tail = seqZ 186 8.
Proof. vm_compute. reflexivity. Qed.

Lemma last_pass_slots : slots last_pass = seqZ 102 176.
Proof. vm_compute. reflexivity. Qed.

(** * General lemmas *)

Lemma elem_of_slots (ds : list (string * Z)) (s : Z) :
  s ∈ slots ds ↔ ∃ name, (name, s) ∈ ds.
Proof.
  unfold slots. rewrite list_elem_of_fmap. split.
  - intros [[n v] [-> Hd]]. by exists n.
  - intros [n Hd]. by exists (n, s).
Qed.

Lemma elem_of_upcall_defs (d : string * Z) :
  d ∈ upcall_defs ↔
  d ∈ first_pass ∨ d ∈ repeated_head ∨ d ∈ repeated_tail ∨ d ∈ last_pass.
Proof. rewrite upcall_defs_passes, !elem_of_app. tauto. Qed.

Lemma max_slot_ge (ds : list (string * Z)) (d : string * Z) :
  d ∈ ds → d.2 ≤ max_slot ds.
Proof.
  unfold max_slot, slots. induction 1 as [d ds|d d' ds _ IH]; csimpl; lia.
Qed.

(** [last_def] started from a value already found. *)
Lemma last_def_foldl (name : string) (ds : list (string * Z)) (acc : option Z) :
  foldl (λ acc d, if decide (d.1 = name) then Some d.2 else acc) acc ds
  = match last_def name ds with Some v => Some v | None => acc end.
Proof.
  unfold last_def. revert acc. induction ds as [|d ds IH]; intros acc; simpl.
  - done.
  - rewrite (IH (if decide (d.1 = name) then Some d.2 else acc)).
    rewrite (IH (if decide (d.1 = name) then Some d.2 else None)).
    destruct (foldl _ None ds); [done|]. by destruct (decide (d.1 = name)).
Qed.

Lemma last_def_cons (name : string) (d : string * Z) (ds : list (string * Z)) :
  last_def name (d :: ds)
  = match last_def name ds with
    | Some v => Some v
    | None => if decide (d.1 = name) then Some d.2 else None
    end.
Proof. unfold last_def at 1. simpl. apply last_def_foldl. Qed.

(** The preprocessor resolves repeated definitions by letting the last one
    win: over live plain lines a name expands to its last definition, and to
    what it expanded to before when the lines do not define it. *)
Lemma expand_preprocess_plain (ls : list line) (st : cpp_state) (name : string) :
  skipped st = 0%nat → Forall plain ls →
  expand (preprocess st ls) name
  = match last_def name (defines ls) with
    | Some v => Some v
    | None => expand st name
    end.
Proof.
  intros Hlive Hplain. revert st Hlive.
  induction Hplain as [|l ls Hl _ IH]; intros st Hlive; [done|].
  unfold preprocess in *. simpl foldl.
  destruct l as [t| | |n v| |]; try done.
  - unfold cpp_line at 2. rewrite Hlive. by rewrite IH.
  - unfold cpp_line at 2. rewrite Hlive. rewrite IH by done.
    change (defines (Define n v :: ls)) with ((n, v) :: defines ls).
    rewrite last_def_cons. destruct (last_def name (defines ls)); [done|].
    unfold expand. simpl. destruct (decide (n = name)) as [->|Hne].
    + by rewrite lookup_insert_eq.
    + by rewrite lookup_insert_ne.
  - unfold cpp_line at 2. rewrite Hlive. by rewrite IH.
Qed.

Lemma preprocess_plain_live (ls : list line) (st : cpp_state) :
  skipped st = 0%nat → Forall plain ls → skipped (preprocess st ls) = 0%nat.
Proof.
  intros Hlive Hplain. revert st Hlive. unfold preprocess.
  induction Hplain as [|l ls Hl _ IH]; intros st Hlive; [done|].
  simpl. apply IH. unfold cpp_line. rewrite Hlive. by destruct l.
Qed.

Lemma preprocess_app (st : cpp_state) (ls1 ls2 : list line) :
  preprocess st (ls1 ++ ls2) = preprocess (preprocess st ls1) ls2.
Proof. apply foldl_app. Qed.

(** The header is its include guard, the definitions, and the closing of the
    guard. *)
Lemma header_parts :
  header
  = [Comment "GENERATED by com.oracle.truffle.r.ffi.processor.FFIProcessor class; DO NOT EDIT";
     Ifndef "RFFI_UPCALLSINDEX_H"; DefineEmpty "RFFI_UPCALLSINDEX_H"; Blank]
    ++ lines 5 394 ++ [Blank; Endif].
Proof. reflexivity. Qed.

Lemma lines_5_394_plain : Forall plain (lines 5 394).
Proof. compute_done. Qed.

(** What a translation unit sees after including the header: every name
    other than the include guard expands to its last definition. *)
Lemma expand_included (name : string) :
  name ≠ "RFFI_UPCALLSINDEX_H" →
  expand included name = last_def name (defines header).
Proof.
  intros Hne. unfold included. rewrite header_parts at 1.
  rewrite !preprocess_app.
  set (st := preprocess cpp_init _).
  assert (Hst : st = CppState (<["RFFI_UPCALLSINDEX_H" := None]> ∅) 0)
    by reflexivity.
  assert (Hlive : skipped st = 0%nat) by (by rewrite Hst).
  pose proof (expand_preprocess_plain _ st name Hlive lines_5_394_plain) as E.
  pose proof (preprocess_plain_live _ st Hlive lines_5_394_plain) as Hlive'.
  set (st' := preprocess st (lines 5 394)) in *.
  assert (Hend : preprocess st' [Blank; Endif] = st').
  { unfold preprocess. simpl. unfold cpp_line. by rewrite !Hlive'. }
  rewrite Hend, E.
  assert (Hdefs : defines header = defines (lines 5 394)) by reflexivity.
  rewrite Hdefs.
  destruct (last_def name (defines (lines 5 394))); [done|].
  rewrite Hst. unfold expand. simpl. by rewrite lookup_insert_ne, lookup_empty.
Qed.

(** * The table as it stands in the header *)

(** C5: the slot values defined in the table are exactly the integers of
    [0, UPCALLS_TABLE_SIZE): every integer of the range is the slot of some
    name, and no defined slot lies outside the range. *)
Theorem slots_fill_table_range (s : Z) :
  (∃ name, (name, s) ∈ upcall_defs) ↔ 0 ≤ s < UPCALLS_TABLE_SIZE.
Proof.
  rewrite table_size_value. split.
  - intros [name Hd]. apply elem_of_upcall_defs in Hd.
    assert (Hin : ∀ ds, (name, s) ∈ ds → s ∈ slots ds)
      by (intros ds ?; apply elem_of_slots; eauto).
    destruct Hd as [Hd|[Hd|[Hd|Hd]]]; apply Hin in Hd; revert Hd.
    + rewrite first_pass_slots, elem_of_seqZ. lia.
    + rewrite repeated_head_slots, elem_of_seqZ. lia.
    + rewrite repeated_tail_slots, elem_of_seqZ. lia.
    + rewrite last_pass_slots, elem_of_seqZ. lia.
  - intros Hs. destruct (decide (s < 194)) as [Hlt|Hge].
    + assert (Hin : s ∈ slots first_pass)
        by (rewrite first_pass_slots, elem_of_seqZ; lia).
      apply elem_of_slots in Hin as [name Hd]. exists name.
      apply elem_of_upcall_defs. by left.
    + assert (Hin : s ∈ slots last_pass)
        by (rewrite last_pass_slots, elem_of_seqZ; lia).
      apply elem_of_slots in Hin as [name Hd]. exists name.
      apply elem_of_upcall_defs. by do 3 right.
Qed.

Lemma max_slot_value : max_slot upcall_defs = 277.
Proof. vm_compute. reflexivity. Qed.

(** C10: [UPCALLS_TABLE_SIZE] is one more than the largest slot defined in
    the table (278 = 277 + 1), so every defined slot is below it. *)
Theorem table_size_is_max_slot_plus_one :
  UPCALLS_TABLE_SIZE = max_slot upcall_defs + 1 ∧
  max_slot upcall_defs = 277 ∧
  ∀ name s, (name, s) ∈ upcall_defs → s < UPCALLS_TABLE_SIZE.
Proof.
  rewrite table_size_value, max_slot_value. split_and!; [done..|].
  intros name s Hd. apply max_slot_ge in Hd. rewrite max_slot_value in Hd.
  simpl in Hd. lia.
Qed.

Lemma table_size_is_max_slot_plus_one_at_last_line :
  277 < UPCALLS_TABLE_SIZE.
Proof.
  apply (proj2 (proj2 table_size_is_max_slot_plus_one) "useDynamicSymbols_x").
  apply elem_of_upcall_defs. do 3 right. compute_done.
Defined.

(** C8: with the last definition of each name winning, the names
    [Rf_any_duplicated3_x] (line 107, never defined in the last pass) and
    [Rf_asChar_x] (line 217) expand to the same slot, 102. *)
Theorem last_definition_wins_is_not_injective :
  line_at 107 = Some (Define "Rf_any_duplicated3_x" 102) ∧
  line_at 217 = Some (Define "Rf_asChar_x" 102) ∧
  "Rf_any_duplicated3_x" ≠ "Rf_asChar_x" ∧
  expand included "Rf_any_duplicated3_x" = Some 102 ∧
  expand included "Rf_asChar_x" = Some 102.
Proof.
  split_and!; [done..| |].
  - rewrite expand_included by done. vm_compute. reflexivity.
  - rewrite expand_included by done. vm_compute. reflexivity.
Qed.

(** C1: the header defines [Rf_asChar_x] as 103 on line 108 and as 102 on
    line 217, so the definitions of one name do not all give the same slot. *)
Theorem Rf_asChar_x_defined_with_two_slots :
  line_at 108 = Some (Define "Rf_asChar_x" 103) ∧
  line_at 217 = Some (Define "Rf_asChar_x" 102) ∧
  ¬ (∀ name s s',
       (name, s) ∈ upcall_defs → (name, s') ∈ upcall_defs → s = s').
Proof.
  split_and!; [done..|]. intros Hsame.
  assert (H1 : ("Rf_asChar_x", 103) ∈ upcall_defs) by compute_done.
  assert (H2 : ("Rf_asChar_x", 102) ∈ upcall_defs) by compute_done.
  by specialize (Hsame _ _ _ H1 H2).
Qed.

(** C3: [Rf_asChar_x] is defined as 103 on line 108 and expands to 103 up
    to line 216; line 217 defines it again as 102.  Preprocessing does not
    stop there: the second definition replaces the first, and after the
    header the name expands to 102. *)
Theorem conflicting_redefinition_is_accepted :
  line_at 108 = Some (Define "Rf_asChar_x" 103) ∧
  line_at 217 = Some (Define "Rf_asChar_x" 102) ∧
  expand (preprocess cpp_init (lines 1 216)) "Rf_asChar_x" = Some 103 ∧
  expand (preprocess cpp_init (lines 1 217)) "Rf_asChar_x" = Some 102 ∧
  expand included "Rf_asChar_x" = Some 102.
Proof.
  split_and!; [done..| | |].
  - vm_compute. reflexivity.
  - vm_compute. reflexivity.
  - rewrite expand_included by done. vm_compute. reflexivity.
Qed.

(** C2: the table names 279 distinct upcalls, one more than
    [UPCALLS_TABLE_SIZE]. *)
Theorem table_size_is_not_the_number_of_names :
  size upcall_names = 279%nat ∧ UPCALLS_TABLE_SIZE = 278.
Proof.
  split; [|apply table_size_value].
  assert (Hset : upcall_names = list_to_set (remove_dups (names upcall_defs))).
  { unfold upcall_names. apply set_eq. intros n.
    by rewrite !elem_of_list_to_set, elem_of_remove_dups. }
  rewrite Hset, size_list_to_set by apply NoDup_remove_dups.
  vm_compute. reflexivity.
Qed.

(** * Passes against each other *)

Lemma last_def_not_defined (name : string) (ds : list (string * Z)) :
  name ∉ names ds → last_def name ds = None.
Proof.
  unfold names. induction ds as [|d ds IH]; [done|].
  rewrite fmap_cons, not_elem_of_cons. intros [Hne Hnot].
  rewrite last_def_cons, IH by done. by rewrite decide_False.
Qed.

(** Where no name is defined twice, a name's last definition is its only one. *)
Lemma last_def_unique (name : string) (v : Z) (ds : list (string * Z)) :
  NoDup (names ds) → (name, v) ∈ ds → last_def name ds = Some v.
Proof.
  unfold names. induction ds as [|d ds IH]; intros Hnd Hin.
  - by apply elem_of_nil in Hin.
  - rewrite fmap_cons in Hnd. apply NoDup_cons in Hnd as [Hfresh Hnd].
    rewrite last_def_cons. apply elem_of_cons in Hin as [<-|Hin].
    + rewrite last_def_not_defined by done. simpl. by rewrite decide_True.
    + by rewrite IH.
Qed.

Lemma first_pass_names_NoDup : NoDup (names first_pass).
Proof. compute_done. Qed.

Lemma last_pass_names_NoDup : NoDup (names last_pass).
Proof. compute_done. Qed.

Lemma elem_of_renumbering (name : string) (s s' : Z) :
  (name, s) ∈ first_pass → (name, s') ∈ last_pass → (s, s') ∈ renumbering.
Proof.
  intros H1 H2. unfold renumbering. apply list_elem_of_omap.
  exists (name, s). split; [done|]. simpl.
  by rewrite (last_def_unique name s' last_pass last_pass_names_NoDup H2).
Qed.

Lemma renumbering_length : length renumbering = 91%nat.
Proof. vm_compute. reflexivity. Qed.

(** C4, as the claim has it: no name of the table is defined as 102 in one
    place and as 186 in another.  Slot 102 belongs to [Rf_any_duplicated3_x]
    and [Rf_asChar_x], slot 186 to [isSeekable_x] and [Rf_qbeta_x]. *)
Lemma no_name_has_slots_102_and_186 :
  ¬ ∃ name, (name, 102) ∈ upcall_defs ∧ (name, 186) ∈ upcall_defs.
Proof.
  intros (name & H102 & H186).
  assert (Hall : Forall (λ d, d.2 = 102 → (d.1, 186) ∉ upcall_defs) upcall_defs)
    by compute_done.
  rewrite Forall_forall in Hall. by apply (Hall _ H102).
Qed.

(** C4, amended: some name is defined again with another slot in a later
    pass; [isSeekable_x] has slot 186 in the first pass (line 191) and 270 in
    the last (line 385), and [Rf_asChar_x] has 103 in the first pass
    (line 108) and 102 in the last (line 217). *)
Theorem names_redeclared_with_another_slot :
  (∃ name s s', s ≠ s' ∧ (name, s) ∈ first_pass ∧ (name, s') ∈ last_pass) ∧
  (line_at 191 = Some (Define "isSeekable_x" 186) ∧
   line_at 385 = Some (Define "isSeekable_x" 270) ∧
   ("isSeekable_x", 186) ∈ first_pass ∧ ("isSeekable_x", 270) ∈ last_pass) ∧
  (line_at 108 = Some (Define "Rf_asChar_x" 103) ∧
   line_at 217 = Some (Define "Rf_asChar_x" 102) ∧
   ("Rf_asChar_x", 103) ∈ first_pass ∧ ("Rf_asChar_x", 102) ∈ last_pass).
Proof.
  assert (H1 : ("isSeekable_x", 186) ∈ first_pass) by compute_done.
  assert (H2 : ("isSeekable_x", 270) ∈ last_pass) by compute_done.
  assert (H3 : ("Rf_asChar_x", 103) ∈ first_pass) by compute_done.
  assert (H4 : ("Rf_asChar_x", 102) ∈ last_pass) by compute_done.
  split_and!; try done.
  by exists "isSeekable_x", 186, 270.
Qed.

(** C6: [useDynamicSymbols_x] is 193 in the first pass (line 198) and 277 in
    the last (line 392), so the last pass does not keep the slots of the
    constants it repeats from the first. *)
Theorem useDynamicSymbols_x_renumbered :
  line_at 198 = Some (Define "useDynamicSymbols_x" 193) ∧
  line_at 392 = Some (Define "useDynamicSymbols_x" 277) ∧
  ¬ (∀ name s s', (name, s) ∈ first_pass → (name, s') ∈ last_pass → s' = s).
Proof.
  split_and!; [done..|]. intros Hsame.
  assert (H1 : ("useDynamicSymbols_x", 193) ∈ first_pass) by compute_done.
  assert (H2 : ("useDynamicSymbols_x", 277) ∈ last_pass) by compute_done.
  by specialize (Hsame _ _ _ H1 H2).
Qed.

(** * Order within a pass *)

Lemma increasing_check_correct (l : list string) :
  increasing_check l = true → strictly_increasing l.
Proof.
  induction l as [|x l IH]; intros Hchk i j a b Hi Hj Hlt.
  - by rewrite lookup_nil in Hi.
  - simpl in Hchk. apply andb_prop in Hchk as [Hx Hl].
    destruct j as [|j]; [lia|]. simpl in Hj. destruct i as [|i].
    + simpl in Hi. injection Hi as ->.
      rewrite forallb_forall in Hx. apply Hx, list_elem_of_In.
      by eapply list_elem_of_lookup_2.
    + simpl in Hi. apply (IH Hl i j a b Hi Hj). lia.
Qed.

(** C9, as the claim has it: in the first pass [Rf_any_duplicated_x]
    (line 106) comes right before [Rf_any_duplicated3_x] (line 107), and
    the character ['_'] (95) is above ['3'] (51), so the names as they are
    written in the header are not in increasing order. *)
Lemma first_pass_names_not_in_ascii_order :
  line_at 106 = Some (Define "Rf_any_duplicated_x" 101) ∧
  line_at 107 = Some (Define "Rf_any_duplicated3_x" 102) ∧
  String.ltb "Rf_any_duplicated_x" "Rf_any_duplicated3_x" = false ∧
  ¬ strictly_increasing (names first_pass).
Proof.
  split_and!; [done..|]. intros Hinc.
  specialize (Hinc 101%nat 102%nat "Rf_any_duplicated_x" "Rf_any_duplicated3_x").
  unfold ascii_lt in Hinc.
  assert (Hfalse : String.ltb "Rf_any_duplicated_x" "Rf_any_duplicated3_x" = false)
    by reflexivity.
  rewrite Hfalse in Hinc. discriminate Hinc; [reflexivity..|lia].
Qed.

(** C9, amended: in the first pass (lines 5-198) and in the last pass
    (lines 217-392) every name is an upcall name followed by [_x]; the upcall
    names, without that suffix, are in strictly increasing order of their
    character codes; and the slots go up by one per definition, 0..193 in
    the first pass and 102..277 in the last. *)
Theorem passes_sorted_by_base_name_with_consecutive_slots :
  Forall (λ n, n = base_name n +:+ "_x") (names first_pass ++ names last_pass) ∧
  strictly_increasing (base_name <$> names first_pass) ∧
  slots first_pass = seqZ 0 194 ∧
  strictly_increasing (base_name <$> names last_pass) ∧
  slots last_pass = seqZ 102 176.
Proof.
  split_and!.
  - compute_done.
  - apply increasing_check_correct. vm_compute. reflexivity.
  - apply first_pass_slots.
  - apply increasing_check_correct. vm_compute. reflexivity.
  - apply last_pass_slots.
Qed.

(** * The dispatch gateway *)

Section DispatchGatewayFacts.

Import DispatchGateway.

Context {wire managed context : Type}.
Variable decode : kind → wire → option managed.
Variable encode : kind → managed → wire.

Implicit Types (g : @gateway managed) (slot : Z) (ctx : context).
Implicit Types (args : list wire) (reqs : list (Z * list wire * context)).

Lemma record_events_table es g : table (record_events es g) = table g.
Proof. reflexivity. Qed.

Lemma record_events_twice es1 es2 g :
  record_events es2 (record_events es1 g) = record_events (es1 ++ es2) g.
Proof. unfold record_events. simpl. by rewrite (assoc_L (++)). Qed.

Lemma record_events_nil g : record_events [] g = g.
Proof. destruct g. unfold record_events. simpl. by rewrite app_nil_r. Qed.

(** No call changes the table: it is read-only once built. *)
Lemma invoke_table slot args ctx g :
  table (invoke decode encode slot args ctx g).2 = table g.
Proof.
  unfold invoke. destruct (decide (0 ≤ slot < size g)); [|done].
  destruct (table g !! Z.to_nat slot) as [[e|]|]; [|done..].
  destruct (decode_args decode (sig e) args) as [vs|]; [|done].
  by destruct (callable e vs).
Qed.

Lemma invoke_size slot args ctx g :
  size (invoke decode encode slot args ctx g).2 = size g.
Proof. unfold size. by rewrite invoke_table. Qed.

(** The bounds check comes first: out of bounds nothing is decoded, no
    guard is taken and no implementation runs; the call is logged only. *)
Lemma invoke_out_of_bounds slot args ctx g :
  size g ≤ slot →
  invoke decode encode slot args ctx g
  = (Failure ABIViolation, record_events [SkewLogged slot] g).
Proof.
  intros Hge. unfold invoke. rewrite decide_False; [done|lia].
Qed.

(** A call that is answered [ABIViolation] had its slot out of bounds. *)
Lemma invoke_ABIViolation slot args ctx g :
  (invoke decode encode slot args ctx g).1 = Failure ABIViolation →
  ¬ (0 ≤ slot < size g).
Proof.
  unfold invoke. destruct (decide (0 ≤ slot < size g)); [|done].
  destruct (table g !! Z.to_nat slot) as [[e|]|]; [|done..].
  destruct (decode_args decode (sig e) args) as [vs|]; [|done].
  by destruct (callable e vs).
Qed.

(** C7: a call with a slot at or above [size()] is answered [ABIViolation]
    whatever the argument buffer and the context are, and this for each of
    any number of such calls in a row; the gateway only logs them, so the
    bounds check stands before any other work. *)
Theorem out_of_bounds_slot_is_ABIViolation g reqs :
  Forall (λ r, size g ≤ r.1.1) reqs →
  invoke_all decode encode reqs g
  = (replicate (length reqs) (Failure ABIViolation),
     record_events ((λ r, SkewLogged r.1.1) <$> reqs) g).
Proof.
  intros Hall. revert g Hall.
  induction reqs as [|r reqs IH]; intros g Hall.
  - simpl. by rewrite record_events_nil.
  - apply Forall_cons in Hall as [Hr Hall]. simpl.
    rewrite (invoke_out_of_bounds _ _ _ _ Hr).
    rewrite IH by (by rewrite Forall_forall in *).
    by rewrite record_events_twice.
Qed.

End DispatchGatewayFacts.

Lemma out_of_bounds_slot_is_ABIViolation_at_table_size :
  let g := DispatchGateway.Gateway
             (replicate (Z.to_nat UPCALLS_TABLE_SIZE)
                (Some (DispatchGateway.Entry (λ vs : list Z, head vs)
                         (DispatchGateway.Signature
                            [DispatchGateway.KInteger]
                            DispatchGateway.KInteger)))) [] in
  DispatchGateway.invoke_all (λ _ w, Some w) (λ _ v, v)
    [(278, [42], tt); (1000, [], tt); (278, [42], tt)] g
  = (replicate 3 (DispatchGateway.Failure ABIViolation),
     DispatchGateway.record_events
       [DispatchGateway.SkewLogged 278; DispatchGateway.SkewLogged 1000;
        DispatchGateway.SkewLogged 278] g).
Proof.
  intros g.
  apply (out_of_bounds_slot_is_ABIViolation (λ _ w, Some w) (λ _ v, v) g
           [(278, [42], tt); (1000, [], tt); (278, [42], tt)]).
  repeat constructor; vm_compute; discriminate.
Defined.

(** * What a translation unit sees *)

Lemma last_def_is_Some (name : string) (ds : list (string * Z)) :
  is_Some (last_def name ds) ↔ name ∈ names ds.
Proof.
  unfold names. induction ds as [|d ds IH].
  - split; [by intros [? ?]|]. by intros ?%elem_of_nil.
  - rewrite last_def_cons, fmap_cons, elem_of_cons, <- IH.
    destruct (last_def name ds) as [v|].
    + split; [by right|by eexists].
    + destruct (decide (d.1 = name)) as [<-|Hne].
      * split; [by left|by eexists].
      * split; [by intros [? ?]|]. intros [?|[? ?]]; congruence.
Qed.

Lemma last_def_elem (name : string) (v : Z) (ds : list (string * Z)) :
  last_def name ds = Some v → (name, v) ∈ ds.
Proof.
  induction ds as [|d ds IH]; [done|]. rewrite last_def_cons.
  destruct (last_def name ds) as [w|].
  - intros [= ->]. right. by apply IH.
  - destruct (decide (d.1 = name)) as [<-|]; [|done].
    intros [= <-]. destruct d. by left.
Qed.

Lemma last_def_app (name : string) (ds1 ds2 : list (string * Z)) :
  last_def name (ds1 ++ ds2)
  = match last_def name ds2 with
    | Some v => Some v
    | None => last_def name ds1
    end.
Proof. unfold last_def at 1. rewrite foldl_app. apply last_def_foldl. Qed.

(** A name's last definition is the one that no definition of the name
    follows. *)
Lemma last_def_split (name : string) (v : Z) (ds : list (string * Z)) :
  last_def name ds = Some v ↔
  ∃ ds1 ds2, ds = ds1 ++ (name, v) :: ds2 ∧ name ∉ names ds2.
Proof.
  split.
  - induction ds as [|d ds IH]; [done|]. rewrite last_def_cons.
    destruct (last_def name ds) as [w|] eqn:E.
    + intros [= ->]. destruct (IH eq_refl) as (ds1 & ds2 & -> & Hnot).
      by exists (d :: ds1), ds2.
    + destruct (decide (d.1 = name)) as [<-|]; [|done]. intros [= <-].
      exists [], ds. split; [by destruct d|].
      rewrite <- last_def_is_Some, E. by intros [? ?].
  - intros (ds1 & ds2 & -> & Hnot). rewrite last_def_app, last_def_cons.
    rewrite last_def_not_defined by done. simpl. by rewrite decide_True.
Qed.

Lemma elem_of_winners (name : string) (v : Z) (ds : list (string * Z)) :
  (name, v) ∈ winners ds ↔ last_def name ds = Some v.
Proof.
  induction ds as [|d ds IH]; simpl.
  - split; [by intros ?%elem_of_nil|done].
  - rewrite last_def_cons.
    pose proof (last_def_is_Some name ds) as Hdef.
    destruct (decide (d.1 ∈ names ds)) as [Hin|Hnotin].
    + rewrite IH. destruct (last_def name ds) as [w|]; [done|].
      rewrite decide_False; [done|]. intros <-. apply Hdef in Hin.
      by destruct Hin.
    + rewrite elem_of_cons, IH. destruct (last_def name ds) as [w|].
      * split; [|by right]. intros [Heq|?]; [|done]. subst d. simpl in *.
        destruct Hnotin. apply Hdef. by eexists.
      * destruct (decide (d.1 = name)) as [<-|Hne].
        -- split.
           ++ intros [Heq|?]; [|done]. by rewrite <- Heq.
           ++ intros [= <-]. left. by destruct d.
        -- split; [|done]. intros [Heq|?]; [|done]. by subst d.
Qed.

Lemma defines_app (ls1 ls2 : list line) :
  defines (ls1 ++ ls2) = defines ls1 ++ defines ls2.
Proof. apply omap_app. Qed.

(** A cut of the definitions of some lines comes from a cut of the lines. *)
Lemma defines_split (ls : list line) (ds1 ds2 : list (string * Z))
    (name : string) (v : Z) :
  defines ls = ds1 ++ (name, v) :: ds2 →
  ∃ ls1 ls2, ls = ls1 ++ Define name v :: ls2 ∧
             defines ls1 = ds1 ∧ defines ls2 = ds2.
Proof.
  revert ds1. induction ls as [|l ls IH]; intros ds1 Hds.
  - by destruct ds1.
  - assert (Hskip : defines (l :: ls) = defines ls →
              ∃ ls1 ls2, l :: ls = ls1 ++ Define name v :: ls2 ∧
                         defines ls1 = ds1 ∧ defines ls2 = ds2).
    { intros Hl. rewrite Hl in Hds.
      destruct (IH _ Hds) as (ls1 & ls2 & -> & H1 & H2).
      exists (l :: ls1), ls2. split_and!; [done| |done].
      change (l :: ls1 ++ Define name v :: ls2)
        with ((l :: ls1) ++ Define name v :: ls2) in Hl.
      rewrite !defines_app in Hl. rewrite <- H1.
      by apply (inj (λ x, x ++ _)) in Hl. }
    destruct l as [t|g|n|n w| |]; try (by apply Hskip).
    change (defines (Define n w :: ls)) with ((n, w) :: defines ls) in Hds.
    destruct ds1 as [|d ds1]; simpl in Hds.
    + injection Hds as -> -> Hds. by exists [], ls.
    + injection Hds as <- Hds.
      destruct (IH _ Hds) as (ls1 & ls2 & -> & H1 & H2).
      exists (Define n w :: ls1), ls2. split_and!; [done| |done].
      change (defines (Define n w :: ls1)) with ((n, w) :: defines ls1).
      by rewrite H1.
Qed.

Lemma elem_of_names_defines (name : string) (ls : list line) :
  name ∈ names (defines ls) ↔ ∃ v, Define name v ∈ ls.
Proof.
  unfold names, defines. rewrite list_elem_of_fmap. split.
  - intros ([n v] & -> & Hin). apply list_elem_of_omap in Hin as (l & Hl & E).
    exists v. by destruct l; simplify_eq.
  - intros [v Hin]. exists (name, v). split; [done|].
    apply list_elem_of_omap. by exists (Define name v).
Qed.

Lemma header_defines_no_guard_value :
  "RFFI_UPCALLSINDEX_H" ∉ names (defines header).
Proof. compute_done. Qed.

(** What is in force after the header: of the names of the first pass the
    first 103 (slots 0..102), then the last pass, then the size. *)
Lemma winners_header :
  winners (defines header)
  = take 103 first_pass ++ last_pass ++ [("UPCALLS_TABLE_SIZE", 278)].
Proof. vm_compute. reflexivity. Qed.

Lemma expand_included_winners (name : string) (v : Z) :
  expand included name = Some v ↔ (name, v) ∈ winners (defines header).
Proof.
  rewrite elem_of_winners.
  destruct (decide (name = "RFFI_UPCALLSINDEX_H")) as [->|Hne].
  - split.
    + intros E. exfalso. revert E. vm_compute. discriminate.
    + intros E%last_def_elem. destruct header_defines_no_guard_value.
      unfold names. apply list_elem_of_fmap. by eexists (_, v).
  - by rewrite expand_included.
Qed.

(** The include guard: where [RFFI_UPCALLSINDEX_H] is defined, the header
    is skipped from [#ifndef] to [#endif] and leaves the macros and the
    conditional state as they were. *)
Theorem header_reinclusion_is_skipped (st : cpp_state) :
  skipped st = 0%nat → is_Some (macros st !! "RFFI_UPCALLSINDEX_H") →
  preprocess st header = st.
Proof.
  intros Hlive [body Hguard]. rewrite header_parts, !preprocess_app.
  assert (Hopen : ∀ text,
            preprocess st [Comment text; Ifndef "RFFI_UPCALLSINDEX_H";
                           DefineEmpty "RFFI_UPCALLSINDEX_H"; Blank]
            = CppState (macros st) 1).
  { intros text. unfold preprocess. cbn [foldl].
    assert (H1 : cpp_line st (Comment text) = st)
      by (unfold cpp_line; by rewrite Hlive).
    assert (H2 : cpp_line st (Ifndef "RFFI_UPCALLSINDEX_H")
                 = CppState (macros st) 1)
      by (unfold cpp_line; by rewrite Hlive, Hguard).
    by rewrite H1, H2. }
  rewrite Hopen.
  assert (Hskip : ∀ ls, Forall plain ls →
            preprocess (CppState (macros st) 1) ls = CppState (macros st) 1).
  { intros ls Hp. unfold preprocess.
    induction Hp as [|l ls Hl _ IH]; [done|]. cbn [foldl].
    by replace (cpp_line (CppState (macros st) 1) l)
      with (CppState (macros st) 1) by (by destruct l). }
  rewrite (Hskip _ lines_5_394_plain).
  destruct st as [m k]. simpl in Hlive. by subst k.
Qed.

Lemma header_reinclusion_is_skipped_after_inclusion :
  preprocess included header = included.
Proof.
  apply header_reinclusion_is_skipped.
  - vm_compute. reflexivity.
  - exists None. vm_compute. reflexivity.
Defined.

(** A name expands to [v] after the header exactly when the header defines
    it as [v] on some line and defines it on no later line: of several
    definitions of a name the last one is in force. *)
Theorem header_last_definition_wins (name : string) (v : Z) :
  expand included name = Some v ↔
  ∃ before after,
    header = before ++ Define name v :: after ∧
    ∀ v', Define name v' ∉ after.
Proof.
  rewrite expand_included_winners, elem_of_winners, last_def_split. split.
  - intros (ds1 & ds2 & Hds & Hnot).
    destruct (defines_split _ _ _ _ _ Hds) as (ls1 & ls2 & Hls & _ & H2).
    exists ls1, ls2. split; [done|]. intros v' Hin. apply Hnot.
    rewrite <- H2. apply elem_of_names_defines. by exists v'.
  - intros (ls1 & ls2 & Hls & Hnot).
    exists (defines ls1), (defines ls2). split.
    + by rewrite Hls, defines_app.
    + rewrite elem_of_names_defines. intros [v' Hin]. by apply (Hnot v').
Qed.

(** ** The first pass, cut where the last pass starts over *)

Lemma elem_of_first_pass (d : string * Z) :
  d ∈ first_pass ↔ d ∈ take 103 first_pass ∨ d ∈ drop 103 first_pass.
Proof. by rewrite <- elem_of_app, take_drop. Qed.

Lemma first_pass_kept_slots : slots (take 103 first_pass) = seqZ 0 103.
Proof. vm_compute. reflexivity. Qed.

Lemma first_pass_relisted_slots : slots (drop 103 first_pass) = seqZ 103 91.
Proof. vm_compute. reflexivity. Qed.

Lemma first_pass_kept_not_relisted :
  Forall (λ d, d.1 ∉ names last_pass) (take 103 first_pass).
Proof. compute_done. Qed.

Lemma first_pass_relisted :
  Forall (λ d, d.1 ∈ names last_pass) (drop 103 first_pass).
Proof. compute_done. Qed.

Lemma repeated_in_first_pass :
  Forall (λ d, d ∈ first_pass) (repeated_head ++ repeated_tail).
Proof. compute_done. Qed.

Lemma renumbering_differs : Forall (λ p, p.2 ≠ p.1) renumbering.
Proof. compute_done. Qed.

Lemma upcall_defs_is_upcall (d : string * Z) :
  d ∈ upcall_defs → is_upcall d.1 = true.
Proof. unfold upcall_defs. by intros [? _]%list_elem_of_filter. Qed.

Lemma slot_of_kept (name : string) (s : Z) :
  (name, s) ∈ take 103 first_pass → 0 ≤ s < 103.
Proof.
  intros Hin. assert (Hs : s ∈ slots (take 103 first_pass))
    by (apply elem_of_slots; eauto).
  rewrite first_pass_kept_slots, elem_of_seqZ in Hs. lia.
Qed.

Lemma slot_of_relisted (name : string) (s : Z) :
  (name, s) ∈ drop 103 first_pass → 103 ≤ s < 194.
Proof.
  intros Hin. assert (Hs : s ∈ slots (drop 103 first_pass))
    by (apply elem_of_slots; eauto).
  rewrite first_pass_relisted_slots, elem_of_seqZ in Hs. lia.
Qed.

Lemma slot_of_last_pass (name : string) (s : Z) :
  (name, s) ∈ last_pass → 102 ≤ s < 278.
Proof.
  intros Hin. assert (Hs : s ∈ slots last_pass) by (apply elem_of_slots; eauto).
  rewrite last_pass_slots, elem_of_seqZ in Hs. lia.
Qed.

(** Where no name is defined twice, a name has one slot. *)
Lemma NoDup_names_slot (ds : list (string * Z)) (name : string) (s s' : Z) :
  NoDup (names ds) → (name, s) ∈ ds → (name, s') ∈ ds → s = s'.
Proof.
  intros Hnd H1 H2. pose proof (last_def_unique _ _ _ Hnd H1) as E1.
  pose proof (last_def_unique _ _ _ Hnd H2) as E2. congruence.
Qed.

Lemma elem_of_names (ds : list (string * Z)) (name : string) :
  name ∈ names ds ↔ ∃ s, (name, s) ∈ ds.
Proof.
  unfold names. rewrite list_elem_of_fmap. split.
  - intros ([n s] & -> & Hin). by exists s.
  - intros [s Hin]. by exists (name, s).
Qed.

(** A definition of the table stands in the first pass or in the last. *)
Lemma upcall_defs_first_or_last (d : string * Z) :
  d ∈ upcall_defs ↔ d ∈ first_pass ∨ d ∈ last_pass.
Proof.
  rewrite elem_of_upcall_defs. pose proof repeated_in_first_pass as Hrep.
  rewrite Forall_forall in Hrep. split.
  - intros [H|[H|[H|H]]]; [by left| | |by right].
    + left. apply Hrep, elem_of_app. by left.
    + left. apply Hrep, elem_of_app. by right.
  - intros [H|H]; [by left|by do 3 right].
Qed.

(** Every slot of [0, UPCALLS_TABLE_SIZE) is what some upcall constant
    expands to after the header, and no upcall constant expands to a value
    outside of that range. *)
Theorem expanded_slots_fill_table_range (s : Z) :
  (∃ name, is_upcall name = true ∧ expand included name = Some s) ↔
  0 ≤ s < UPCALLS_TABLE_SIZE.
Proof.
  rewrite table_size_value. setoid_rewrite expand_included_winners.
  rewrite winners_header. setoid_rewrite elem_of_app.
  setoid_rewrite elem_of_app. split.
  - intros (name & Hup & [Hin|[Hin|Hin]]).
    + apply slot_of_kept in Hin. lia.
    + apply slot_of_last_pass in Hin. lia.
    + apply list_elem_of_singleton in Hin. by injection Hin as -> ->.
  - intros Hs. destruct (decide (s < 103)) as [Hlt|Hge].
    + assert (Hin : s ∈ slots (take 103 first_pass))
        by (rewrite first_pass_kept_slots, elem_of_seqZ; lia).
      apply elem_of_slots in Hin as [name Hin]. exists name. split; [|by left].
      apply (upcall_defs_is_upcall (name, s)), upcall_defs_first_or_last.
      left. apply elem_of_first_pass. by left.
    + assert (Hin : s ∈ slots last_pass)
        by (rewrite last_pass_slots, elem_of_seqZ; lia).
      apply elem_of_slots in Hin as [name Hin]. exists name.
      split; [|by right; left].
      apply (upcall_defs_is_upcall (name, s)), upcall_defs_first_or_last.
      by right.
Qed.

(** Two different names expand to the same value after the header only in
    one case: [Rf_any_duplicated3_x] and [Rf_asChar_x], at slot 102. *)
Theorem expanded_slots_collide_only_at_102 (n1 n2 : string) (s : Z) :
  n1 ≠ n2 → expand included n1 = Some s → expand included n2 = Some s →
  s = 102 ∧
  ((n1 = "Rf_any_duplicated3_x" ∧ n2 = "Rf_asChar_x") ∨
   (n1 = "Rf_asChar_x" ∧ n2 = "Rf_any_duplicated3_x")).
Proof.
  rewrite !expand_included_winners, winners_header. intros Hne H1 H2.
  set (W := take 103 first_pass ++ last_pass ++ [("UPCALLS_TABLE_SIZE", 278)])
    in *.
  assert (Hall : Forall (λ d1, Forall (λ d2,
            d1.2 = d2.2 → d1.1 ≠ d2.1 →
            d1.2 = 102 ∧
            ((d1.1 = "Rf_any_duplicated3_x" ∧ d2.1 = "Rf_asChar_x") ∨
             (d1.1 = "Rf_asChar_x" ∧ d2.1 = "Rf_any_duplicated3_x"))) W) W)
    by compute_done.
  rewrite Forall_forall in Hall. specialize (Hall _ H1).
  rewrite Forall_forall in Hall. by apply (Hall _ H2).
Qed.

Lemma expanded_slots_collide_only_at_102_witness :
  102 = 102 ∧
  (("Rf_any_duplicated3_x" = "Rf_any_duplicated3_x" ∧
    "Rf_asChar_x" = "Rf_asChar_x") ∨
   ("Rf_any_duplicated3_x" = "Rf_asChar_x" ∧
    "Rf_asChar_x" = "Rf_any_duplicated3_x")).
Proof.
  apply (expanded_slots_collide_only_at_102
           "Rf_any_duplicated3_x" "Rf_asChar_x" 102).
  - discriminate.
  - vm_compute. reflexivity.
  - vm_compute. reflexivity.
Defined.

(** ** Runs and conflicts *)

(** The slot definitions of the header are four runs of consecutive slots,
    one after the other: lines 5-198 with 0..193, lines 199-208 with
    102..111, lines 209-216 with 186..193 and lines 217-392 with 102..277;
    between two runs the slot is not the successor of the one before. *)
Theorem header_has_four_runs :
  runs upcall_defs
  = [defines (lines 5 198); defines (lines 199 208);
     defines (lines 209 216); defines (lines 217 392)] ∧
  slots <$> runs upcall_defs
  = [seqZ 0 194; seqZ 102 10; seqZ 186 8; seqZ 102 176] ∧
  upcall_defs = concat (runs upcall_defs).
Proof.
  rewrite runs_upcall_defs. split_and!.
  - reflexivity.
  - cbn [fmap list_fmap].
    by rewrite first_pass_slots, repeated_head_slots, repeated_tail_slots,
      last_pass_slots.
  - cbn [concat]. by rewrite app_nil_r, upcall_defs_passes.
Qed.

(** A name is defined with two different slots in the header exactly when
    it stands both in the first pass and in the last one. *)
Theorem conflicting_names_are_the_shared_ones (name : string) :
  (∃ s s', s ≠ s' ∧ (name, s) ∈ upcall_defs ∧ (name, s') ∈ upcall_defs) ↔
  name ∈ names first_pass ∧ name ∈ names last_pass.
Proof.
  split.
  - intros (s & s' & Hne & H1 & H2).
    apply upcall_defs_first_or_last in H1, H2.
    pose proof (NoDup_names_slot _ name s s' first_pass_names_NoDup).
    pose proof (NoDup_names_slot _ name s s' last_pass_names_NoDup).
    rewrite !elem_of_names. destruct H1 as [H1|H1], H2 as [H2|H2]; eauto.
    + by destruct Hne; auto.
    + by destruct Hne; auto.
  - rewrite !elem_of_names. intros [[s H1] [s' H2]]. exists s, s'.
    split_and!.
    + pose proof renumbering_differs as Hall. rewrite Forall_forall in Hall.
      intros ->. by apply (Hall _ (elem_of_renumbering name s' s' H1 H2)).
    + apply upcall_defs_first_or_last. by left.
    + apply upcall_defs_first_or_last. by right.
Qed.

(** The last pass lists again the constants of the first pass that have a
    slot of 103 or more there, [Rf_asChar_x] and those after it, and none
    of those before. *)
Theorem last_pass_relists_first_pass_from_slot_103 (name : string) (s : Z) :
  (name, s) ∈ first_pass → (name ∈ names last_pass ↔ 103 ≤ s).
Proof.
  intros [Hin|Hin]%elem_of_first_pass.
  - pose proof first_pass_kept_not_relisted as Hall.
    rewrite Forall_forall in Hall. specialize (Hall _ Hin). simpl in Hall.
    apply slot_of_kept in Hin. split; [done|lia].
  - pose proof first_pass_relisted as Hall.
    rewrite Forall_forall in Hall. specialize (Hall _ Hin). simpl in Hall.
    apply slot_of_relisted in Hin. split; [lia|done].
Qed.

Lemma last_pass_relists_first_pass_from_slot_103_at_Rf_asChar_x :
  "Rf_asChar_x" ∈ names last_pass ↔ 103 ≤ 103.
Proof.
  apply (last_pass_relists_first_pass_from_slot_103 "Rf_asChar_x" 103).
  apply (bool_decide_unpack _). vm_compute. reflexivity.
Defined.

(** What the constants of a pass expand to after the header: a constant of
    the last pass to its slot there; a constant of the first pass with a
    slot up to 102 to that slot; and a constant of the first pass with a
    slot from 103 on to another slot than the one the first pass gave it. *)
Theorem expansion_of_pass_constants :
  (∀ name s, (name, s) ∈ last_pass → expand included name = Some s) ∧
  (∀ name s,
     (name, s) ∈ first_pass → s ≤ 102 → expand included name = Some s) ∧
  (∀ name s,
     (name, s) ∈ first_pass → 103 ≤ s →
     ∃ s', s' ≠ s ∧ expand included name = Some s').
Proof.
  assert (Hlast : ∀ name s,
            (name, s) ∈ last_pass → expand included name = Some s).
  { intros name s Hin. rewrite expand_included_winners, winners_header.
    rewrite !elem_of_app. by right; left. }
  split_and!; [done| |].
  - intros name s [Hin|Hin]%elem_of_first_pass Hle.
    + rewrite expand_included_winners, winners_header, !elem_of_app.
      by left.
    + apply slot_of_relisted in Hin. lia.
  - intros name s Hin Hge.
    assert (Hre : name ∈ names last_pass).
    { apply elem_of_first_pass in Hin as [Hin|Hin].
      - apply slot_of_kept in Hin. lia.
      - pose proof first_pass_relisted as Hall.
        rewrite Forall_forall in Hall. apply (Hall _ Hin). }
    apply elem_of_names in Hre as [s' Hin']. exists s'. split; [|by apply Hlast].
    pose proof renumbering_differs as Hall. rewrite Forall_forall in Hall.
    apply (Hall _ (elem_of_renumbering name s s' Hin Hin')).
Qed.

Lemma expansion_of_pass_constants_at_isSeekable_x :
  expand included "isSeekable_x" = Some 270 ∧
  expand included "ATTRIB_x" = Some 0 ∧
  ∃ s', s' ≠ 186 ∧ expand included "isSeekable_x" = Some s'.
Proof.
  destruct expansion_of_pass_constants as (Hlast & Hkept & Hmoved).
  split_and!.
  - apply Hlast. apply (bool_decide_unpack _). vm_compute. reflexivity.
  - apply Hkept; [|lia]. apply (bool_decide_unpack _). vm_compute. reflexivity.
  - apply Hmoved; [|lia]. apply (bool_decide_unpack _). vm_compute. reflexivity.
Defined.
